(** * Responsive [ngStyle] directive: style-string parsing, merging and
      breakpoint activation

    Shallow embedding of [StyleDirective] (lib/flexbox/api/style.ts).

    JavaScript strings are modelled as [string]: every [ascii] stands for
    one UTF-16 code unit below 256.  JavaScript objects used as property
    maps are [gmap string string]; the directive's input cache
    ([_base.inputMap]) is a [gmap string NgStyleType]. *)

From Stdlib Require Import Ascii String.
From stdpp Require Import base option list gmap strings fin_maps pretty.

Local Open Scope string_scope.

(** ** JavaScript string primitives used by the directive *)

Module JsString.

(** [s.split(sep)] for a one-character separator: every occurrence of
    [sep] cuts; the result is never empty. *)
Fixpoint split (sep : ascii) (s : string) : list string :=
  match s with
  | EmptyString => [EmptyString]
  | String c rest =>
      if Ascii.eqb c sep then EmptyString :: split sep rest
      else match split sep rest with
           | hd :: tl => String c hd :: tl
           | [] => [String c EmptyString]
           end
  end.

(** [s.replace(pat, rep)] with a one-character string pattern: only the
    FIRST occurrence of [pat] is replaced. *)
Fixpoint replace (pat : ascii) (rep : string) (s : string) : string :=
  match s with
  | EmptyString => EmptyString
  | String c rest =>
      if Ascii.eqb c pat then rep +:+ rest
      else String c (replace pat rep rest)
  end.

(** White space and line terminators of ECMAScript below code 256:
    TAB, LF, VT, FF, CR, SP and NBSP. *)
Definition isWhiteSpace (c : ascii) : bool :=
  bool_decide (nat_of_ascii c ∈ [9; 10; 11; 12; 13; 32; 160]).

Fixpoint trimStart (s : string) : string :=
  match s with
  | EmptyString => EmptyString
  | String c rest => if isWhiteSpace c then trimStart rest else s
  end.

Fixpoint trimEnd (s : string) : string :=
  match s with
  | EmptyString => EmptyString
  | String c rest =>
      match trimEnd rest with
      | EmptyString => if isWhiteSpace c then EmptyString else String c EmptyString
      | rest' => String c rest'
      end
  end.

(** [s.trim()] *)
Definition trim (s : string) : string := trimEnd (trimStart s).

(** Truthiness of a string: only the empty string is falsy. *)
Definition truthy (s : string) : bool :=
  match s with EmptyString => false | _ => true end.

(** Membership of a character in a string. *)
Fixpoint contains (c : ascii) (s : string) : bool :=
  match s with
  | EmptyString => false
  | String c' rest => Ascii.eqb c' c || contains c rest
  end.

End JsString.

(** ** Values accepted by the directive *)

(** [NgStyleType = string | string[] | Set<string> | ngStyleMap], plus the
    [null] that [getAttribute] returns and [undefined]. *)
Inductive NgStyleType :=
| Undefined
| Null
| Str (s : string)
| Arr (l : list string)
| SetOf (l : list string)
| Obj (m : gmap string string).

#[global] Instance NgStyleType_eq_dec : EqDecision NgStyleType.
Proof. solve_decision. Defined.

#[global] Instance NgStyleType_inhabited : Inhabited NgStyleType := populate Undefined.

(** JavaScript truthiness, as used by [a || b]. *)
Definition truthy (v : NgStyleType) : bool :=
  match v with
  | Undefined | Null => false
  | Str s => JsString.truthy s
  | Arr _ | SetOf _ | Obj _ => true
  end.

Definition js_or (a b : NgStyleType) : NgStyleType := if truthy a then a else b.

(** ** [_buildStyleMap] *)

(** [map[key] = val] on an ordinary object and a string [val]: an own
    property is written, except for the key [__proto__], whose inherited
    setter ignores a value that is neither an object nor [null]. *)
Definition set_prop (key val : string) (map : gmap string string) : gmap string string :=
  if decide (key = "__proto__") then map else <[key := val]> map.

(** The callback of [.map(...)]:
    [let [key, val] = it.split(":");
     return val ? [key.replace("'", '').trim(), val.trim()] : null]. *)
Definition toKeyValue (it : string) : option (string * string) :=
  let parts := JsString.split ":" it in
  let key := default EmptyString (parts !! 0%nat) in
  match parts !! 1%nat with
  | Some val =>
      if JsString.truthy val
      then Some (JsString.trim (JsString.replace "'" EmptyString key), JsString.trim val)
      else None
  | None => None
  end.

(** [value.replace(",", ";").split(";")] *)
Definition fragments (value : string) : list string :=
  JsString.split ";" (JsString.replace "," ";" value).

(** The callback of [.reduce(..., {})]. *)
Definition addEntry (map : gmap string string) (it : option (string * string))
  : gmap string string :=
  match it with
  | Some (key, val) => set_prop key val map
  | None => map
  end.

(** [.map(...).filter(it => it !== null).reduce(..., {})] *)
Definition buildFromFragments (frags : list string) : gmap string string :=
  foldl addEntry ∅ (filter (λ it, it ≠ None) (toKeyValue <$> frags)).

Definition _buildStyleMap (styles : NgStyleType) : NgStyleType :=
  match styles with
  | Str value => Obj (buildFromFragments (fragments value))
  | _ => styles
  end.

(** ** The merge helper and the input cache *)

(** An array seen as an object: its elements under their decimal indices. *)
Definition indexed (l : list string) : gmap string string :=
  list_to_map (imap (λ i x, (pretty i, x)) l).

(** Modelled from the spec: the keys that [extendObject] (utils/object-extend,
    defined outside the directive's file) copies from a source are its own
    enumerable properties: the entries of a property map, the indices of an
    array (or of a string), none for a [Set], [null] or [undefined]. *)
Definition ownProps (v : NgStyleType) : gmap string string :=
  match v with
  | Obj m => m
  | Arr l => indexed l
  | Str s => indexed ((λ c, String c EmptyString) <$> list_ascii_of_string s)
  | SetOf _ | Null | Undefined => ∅
  end.

(** Modelled from the spec: [extendObject] of utils/object-extend, which is
    defined outside the directive's file.  "Start from a shallow copy of base, then
    overwrite with every key from the parsed result": the destination is
    overwritten by each source in turn, so a later source wins. *)
Definition extendObject (dest : gmap string string) (sources : list NgStyleType)
  : gmap string string :=
  foldl (λ acc src, ownProps src ∪ acc) dest sources.

(** Modelled from the spec: [ResponsiveActivation] of
    responsive-activation, which is defined outside the directive's file.
    It is created
    by [listenForMediaQueryChanges(key, defaultValue, ...)] and holds the
    key of the currently active input. *)
Record ResponsiveActivation := {
  baseKey : string;
  defaultValue : NgStyleType;
  activatedInputKey : option string
}.

(** [BaseFxDirectiveAdapter]: the cache of inputs and the activation. *)
Record BaseFxDirectiveAdapter := {
  inputMap : gmap string NgStyleType;
  mqActivation : option ResponsiveActivation
}.

Record StyleDirective := {
  _base : BaseFxDirectiveAdapter;
  ngStyle : NgStyleType
}.

(** [this._base.inputMap[key]]: a missing property reads [undefined]. *)
Definition inputMapAt (key : string) (b : BaseFxDirectiveAdapter) : NgStyleType :=
  default Undefined (inputMap b !! key).

(** Modelled from the spec: [BaseFxDirectiveAdapter.cacheInput] of
    base-adapter, which is defined outside the directive's file.  It "stores the result
    keyed by suffix"; every call in the directive passes [cacheRaw = true]. *)
Definition base_cacheInput (key : string) (source : NgStyleType) (cacheRaw : bool)
    (b : BaseFxDirectiveAdapter) : BaseFxDirectiveAdapter :=
  {| inputMap := <[key := source]> (inputMap b); mqActivation := mqActivation b |}.

(** Modelled from the spec: [queryInput] of the base adapter reads the
    cache. *)
Definition queryInput (key : string) (b : BaseFxDirectiveAdapter) : NgStyleType :=
  inputMapAt key b.

(** The intercept installed by [_buildAdapter]:
    [(key, source, cacheRaw = false, merge = true) => {
       let styles = this._buildStyleMap(source);
       if (merge) styles = extendObject({}, this._base.inputMap['style'], styles);
       cacheInput(key, styles, cacheRaw); }] *)
Definition cacheInput (key : string) (source : NgStyleType) (cacheRaw merge : bool)
    (b : BaseFxDirectiveAdapter) : BaseFxDirectiveAdapter :=
  let styles := _buildStyleMap source in
  let styles :=
    if merge then Obj (extendObject ∅ [inputMapAt "style" b; styles]) else styles in
  base_cacheInput key styles cacheRaw b.

(** [_buildAdapter]: a fresh adapter with an empty cache. *)
Definition _buildAdapter : BaseFxDirectiveAdapter :=
  {| inputMap := ∅; mqActivation := None |}.

(** The constructor; [inlineStyle] is [_ngEl.nativeElement.getAttribute("style")],
    a string or [null]. *)
Definition constructor (inlineStyle : NgStyleType) : StyleDirective :=
  {| _base := cacheInput "style" inlineStyle true true _buildAdapter;
     ngStyle := Undefined |}.

(** [set styleBase(val)] *)
Definition styleBase (val : NgStyleType) (d : StyleDirective) : StyleDirective :=
  let b := cacheInput "style" val true true (_base d) in
  {| _base := b; ngStyle := inputMapAt "style" b |}.

(** The nine breakpoint setters [ngStyleXs], ..., [ngStyleXl] and their
    deprecated twins all read [this._base.cacheInput(key, val, true)]. *)
Definition ngStyleBp (key : string) (val : NgStyleType) (d : StyleDirective)
  : StyleDirective :=
  {| _base := cacheInput key val true true (_base d); ngStyle := ngStyle d |}.

Definition ngStyleXs := ngStyleBp "styleXs".
Definition ngStyleGtXs := ngStyleBp "styleGtXs".
Definition ngStyleSm := ngStyleBp "styleSm".
Definition ngStyleGtSm := ngStyleBp "styleGtSm".
Definition ngStyleMd := ngStyleBp "styleMd".
Definition ngStyleGtMd := ngStyleBp "styleGtMd".
Definition ngStyleLg := ngStyleBp "styleLg".
Definition ngStyleGtLg := ngStyleBp "styleGtLg".
Definition ngStyleXl := ngStyleBp "styleXl".

(** One input of the directive: the base binding or a breakpoint one. *)
Definition setInput (key : string) (val : NgStyleType) (d : StyleDirective)
  : StyleDirective :=
  if decide (key = "style") then styleBase val d else ngStyleBp key val d.

Definition setInputs (calls : list (string * NgStyleType)) (d : StyleDirective)
  : StyleDirective :=
  foldl (λ d c, setInput c.1 c.2 d) d calls.

(** ** Breakpoint activation *)

(** The monitor's view of one registered breakpoint: its suffix ("Xs",
    "GtMd", ...) and whether its media query currently matches.  A
    snapshot lists the breakpoints in registration order. *)
Record BreakPoint := {
  suffix : string;
  matches : bool
}.

(** A key has a cached input when its cache entry is not [undefined]. *)
Definition keyInUse (key : string) (b : BaseFxDirectiveAdapter) : bool :=
  bool_decide (inputMapAt key b ≠ Undefined).

(** The matching breakpoints that have a cached input, in registration
    order. *)
Definition candidates (base : string) (bps : list BreakPoint)
    (b : BaseFxDirectiveAdapter) : list BreakPoint :=
  filter (λ bp, matches bp = true ∧ keyInUse (base +:+ suffix bp) b = true) bps.

(** Modelled from the spec: the resolution step of [ResponsiveActivation].
    "A single pass picking the highest-index matching entry with a cached
    value, else base": [None] stands for the base. *)
Definition resolveKey (base : string) (bps : list BreakPoint)
    (b : BaseFxDirectiveAdapter) : option string :=
  (λ bp, base +:+ suffix bp) <$> last (candidates base bps b).

(** Modelled from the spec: the getter [activatedInput] of
    [ResponsiveActivation]; it reads the adapter's own cache, so it sees
    every later [cacheInput]. *)
Definition activatedInput (act : ResponsiveActivation) (b : BaseFxDirectiveAdapter)
  : NgStyleType :=
  let key := default (baseKey act) (activatedInputKey act) in
  if keyInUse key b then inputMapAt key b else defaultValue act.

(** Modelled from the spec: [listenForMediaQueryChanges(key, defaultValue, ...)]
    of the base adapter creates the activation once. *)
Definition listenForMediaQueryChanges (key : string) (defaultValue : NgStyleType)
    (b : BaseFxDirectiveAdapter) : BaseFxDirectiveAdapter :=
  match mqActivation b with
  | Some _ => b
  | None =>
      {| inputMap := inputMap b;
         mqActivation := Some {| baseKey := key; defaultValue := defaultValue;
                                 activatedInputKey := None |} |}
  end.

(** Modelled from the spec: what the activation does with a viewport-change
    event before it calls the subscriber. *)
Definition onMonitorEvent (bps : list BreakPoint) (b : BaseFxDirectiveAdapter)
  : BaseFxDirectiveAdapter :=
  match mqActivation b with
  | Some act =>
      {| inputMap := inputMap b;
         mqActivation := Some {| baseKey := baseKey act;
                                 defaultValue := defaultValue act;
                                 activatedInputKey := resolveKey (baseKey act) bps b |} |}
  | None => b
  end.

(** [_updateStyle(value?)]:
    [let style = value || this._base.queryInput("style") || '';
     if (this._base.mqActivation) style = this._base.mqActivation.activatedInput;
     this.ngStyle = style;]
    An omitted [value] is [Undefined]. *)
Definition _updateStyle (value : NgStyleType) (d : StyleDirective) : StyleDirective :=
  let style := js_or (js_or value (queryInput "style" (_base d))) (Str EmptyString) in
  let style :=
    match mqActivation (_base d) with
    | Some act => activatedInput act (_base d)
    | None => style
    end in
  {| _base := _base d; ngStyle := style |}.

(** [ngOnInit] *)
Definition ngOnInit (d : StyleDirective) : StyleDirective :=
  {| _base := listenForMediaQueryChanges "style" (Str EmptyString) (_base d);
     ngStyle := ngStyle d |}.

(** [ngOnChanges(changes)]: [registry] holds the suffixes of
    [_bpRegistry.items], [changes] the property names present in the
    [SimpleChanges] object. *)
Definition ngOnChanges (registry : list string) (changes : list string)
    (d : StyleDirective) : StyleDirective :=
  let changed :=
    existsb (λ sfx, bool_decide ("ngStyle" +:+ sfx ∈ changes)
                    || bool_decide ("style" +:+ sfx ∈ changes)) registry in
  if changed || bool_decide (is_Some (mqActivation (_base d)))
  then _updateStyle Undefined d
  else d.

(** A viewport-change event, handled.  Modelled from the spec: the
    emission rule of [ResponsiveActivation] (defined outside the
    directive's file): "when the active selection changes (by suffix
    identity, not by value equality), emit the resolved map to the
    subscriber exactly once; no emission occurs if the resolved suffix is
    unchanged even if its underlying cached map content changed".  On an
    emission the subscriber registered in [ngOnInit] runs
    [this._updateStyle(changes.value)]. *)
Definition onMediaQueryChange (bps : list BreakPoint) (d : StyleDirective)
  : StyleDirective :=
  match mqActivation (_base d) with
  | Some current =>
      if decide (resolveKey (baseKey current) bps (_base d) = activatedInputKey current)
      then d
      else
        let b := onMonitorEvent bps (_base d) in
        match mqActivation b with
        | Some act =>
            _updateStyle (activatedInput act b) {| _base := b; ngStyle := ngStyle d |}
        | None => d
        end
  | None => d
  end.

(** The resolved style of a directive that listens. *)
Definition activeStyle (d : StyleDirective) : NgStyleType :=
  match mqActivation (_base d) with
  | Some act => activatedInput act (_base d)
  | None => Undefined
  end.

(** A run of base inputs, oldest first. *)
Definition styleBases (vals : list NgStyleType) (d : StyleDirective) : StyleDirective :=
  foldl (λ d v, styleBase v d) d vals.

(** The two breakpoints of the worked scenario. *)
Definition Xs (m : bool) : BreakPoint := {| suffix := "Xs"; matches := m |}.
Definition GtMd (m : bool) : BreakPoint := {| suffix := "GtMd"; matches := m |}.

(** A breakpoint is eligible when it matches and an input is cached for it. *)
Definition eligible (base : string) (b : BaseFxDirectiveAdapter) (bp : BreakPoint) : Prop :=
  matches bp = true ∧ keyInUse (base +:+ suffix bp) b = true.

(** A string is trimmed when it neither starts nor ends with white space. *)
Definition trimmed (s : string) : Prop := JsString.trim s = s.

(** The deprecated selectors [style.xs], ..., [style.xl] cache under the
    same keys as [ngStyle.xs], ..., [ngStyle.xl]. *)
Definition styleXs := ngStyleBp "styleXs".
Definition styleGtXs := ngStyleBp "styleGtXs".
Definition styleSm := ngStyleBp "styleSm".
Definition styleGtSm := ngStyleBp "styleGtSm".
Definition styleMd := ngStyleBp "styleMd".
Definition styleGtMd := ngStyleBp "styleGtMd".
Definition styleLg := ngStyleBp "styleLg".
Definition styleGtLg := ngStyleBp "styleGtLg".
Definition styleXl := ngStyleBp "styleXl".

(** ** Notions used to state the behaviour of the parser *)

(** Number of occurrences of a character in a string. *)
Fixpoint countChar (c : ascii) (s : string) : nat :=
  match s with
  | EmptyString => 0
  | String c' rest => (if Ascii.eqb c' c then 1 else 0) + countChar c rest
  end.

(** A string free of the characters that the parser treats specially. *)
Definition plain (s : string) : Prop :=
  JsString.contains ":" s = false
  ∧ JsString.contains ";" s = false
  ∧ JsString.contains "," s = false.

(** A key that the parser stores as it is written. *)
Definition cleanKey (k : string) : Prop :=
  plain k ∧ JsString.contains "'" k = false ∧ trimmed k.

(** A value that the parser stores as it is written. *)
Definition cleanValue (v : string) : Prop :=
  plain v ∧ trimmed v ∧ v ≠ EmptyString.

(** The text of one declaration and of a list of declarations: "k:v" and
    "k1:v1;k2:v2;...". *)
Definition declaration (kv : string * string) : string :=
  kv.1 +:+ ":" +:+ kv.2.

Definition styleString (decls : list (string * string)) : string :=
  String.concat ";" (declaration <$> decls).

(** The property names of the [SimpleChanges] object that make
    [ngOnChanges] see a breakpoint input as changed. *)
Definition bpChanged (registry changes : list string) : Prop :=
  ∃ sfx, sfx ∈ registry ∧ ("ngStyle" +:+ sfx ∈ changes ∨ "style" +:+ sfx ∈ changes).

(** * Proof automation *)

(** Closed goals about concrete inputs are settled by running the model. *)
Ltac by_evaluation := vm_compute; first [reflexivity | discriminate | done].

(** * Properties of the string primitives *)

Section StringFacts.

Lemma split_nonempty sep s : JsString.split sep s ≠ [].
Proof.
  destruct s as [|c rest]; simpl; [done|].
  destruct (Ascii.eqb c sep); [done|].
  by destruct (JsString.split sep rest).
Qed.

Lemma split_no_sep sep s :
  JsString.contains sep s = false → JsString.split sep s = [s].
Proof.
  induction s as [|c rest IH]; simpl; [done|].
  intros [Hc Hrest]%orb_false_iff.
  rewrite Hc, (IH Hrest). done.
Qed.

Lemma trimStart_idem s : JsString.trimStart (JsString.trimStart s) = JsString.trimStart s.
Proof.
  induction s as [|c rest IH]; simpl; [done|].
  destruct (JsString.isWhiteSpace c) eqn:Hc; [done|].
  simpl. by rewrite Hc.
Qed.

Lemma trimEnd_idem s : JsString.trimEnd (JsString.trimEnd s) = JsString.trimEnd s.
Proof.
  induction s as [|c rest IH]; simpl; [done|].
  destruct (JsString.trimEnd rest) as [|c' rest'] eqn:Hr.
  - destruct (JsString.isWhiteSpace c) eqn:Hc; simpl; [done|]. by rewrite Hc.
  - change (JsString.trimEnd (String c (String c' rest')))
      with (match JsString.trimEnd (String c' rest') with
            | EmptyString =>
                if JsString.isWhiteSpace c then EmptyString else String c EmptyString
            | r => String c r
            end).
    by rewrite IH.
Qed.

(** Trimming the end never uncovers leading white space. *)
Lemma trimStart_trimEnd s :
  JsString.trimStart s = s → JsString.trimStart (JsString.trimEnd s) = JsString.trimEnd s.
Proof.
  destruct s as [|c rest]; simpl; [done|].
  destruct (JsString.isWhiteSpace c) eqn:Hc.
  - intros H. exfalso.
    assert (Hlen : (String.length (JsString.trimStart rest) <= String.length rest)%nat).
    { clear. induction rest as [|a r IH]; simpl; [lia|].
      destruct (JsString.isWhiteSpace a); simpl; lia. }
    rewrite H in Hlen. simpl in Hlen. lia.
  - intros _. destruct (JsString.trimEnd rest); simpl; by rewrite Hc.
Qed.

Lemma trim_trimmed s : trimmed (JsString.trim s).
Proof.
  unfold trimmed, JsString.trim.
  rewrite (trimStart_trimEnd (JsString.trimStart s)) by apply trimStart_idem.
  apply trimEnd_idem.
Qed.

End StringFacts.

(** * Properties of the parser *)

Section Parser.

Lemma toKeyValue_no_colon it :
  JsString.contains ":" it = false → toKeyValue it = None.
Proof. intros H. unfold toKeyValue. by rewrite (split_no_sep _ _ H). Qed.

Lemma toKeyValue_empty_val it :
  JsString.split ":" it !! 1%nat = Some EmptyString → toKeyValue it = None.
Proof. intros H. unfold toKeyValue. by rewrite H. Qed.

(** What a kept fragment yields. *)
Lemma toKeyValue_Some it k v :
  toKeyValue it = Some (k, v) →
  ∃ key val, JsString.split ":" it !! 0%nat = Some key
             ∧ JsString.split ":" it !! 1%nat = Some val
             ∧ val ≠ EmptyString
             ∧ k = JsString.trim (JsString.replace "'" EmptyString key)
             ∧ v = JsString.trim val.
Proof.
  unfold toKeyValue.
  destruct (JsString.split ":" it) as [|key [|val tl]] eqn:Hs; simpl; try done.
  destruct val as [|c val]; simpl; [done|].
  intros [= <- <-]. by exists key, (String c val).
Qed.

Lemma buildFromFragments_drop l1 it l2 :
  toKeyValue it = None →
  buildFromFragments (l1 ++ it :: l2) = buildFromFragments (l1 ++ l2).
Proof.
  intros H. unfold buildFromFragments.
  rewrite !fmap_app, fmap_cons, H, !filter_app.
  by rewrite filter_cons_False by (intros Hn; by apply Hn).
Qed.

Lemma addEntry_fold_lookup l : ∀ m0 k v,
  foldl addEntry m0 l !! k = Some v →
  m0 !! k = Some v ∨ Some (k, v) ∈ l.
Proof.
  induction l as [|it l IH]; simpl; intros m0 k v H; [by left|].
  destruct (IH _ _ _ H) as [H0|Hin]; [|right; by right].
  destruct it as [[key val]|]; simpl in H0; [|by left].
  unfold set_prop in H0. case_decide; [by left|].
  destruct (decide (key = k)) as [->|Hne].
  - rewrite lookup_insert_eq in H0. injection H0 as ->. right. by left.
  - rewrite lookup_insert_ne in H0 by done. by left.
Qed.

Lemma addEntry_fold_mono l : ∀ m0 k,
  is_Some (m0 !! k) → is_Some (foldl addEntry m0 l !! k).
Proof.
  induction l as [|it l IH]; simpl; intros m0 k H; [done|].
  apply IH. destruct it as [[key val]|]; simpl; [|done].
  unfold set_prop. case_decide; [done|].
  destruct (decide (key = k)) as [->|Hne].
  - rewrite lookup_insert_eq. by eexists.
  - by rewrite lookup_insert_ne.
Qed.

Lemma addEntry_fold_has l : ∀ m0 k v,
  Some (k, v) ∈ l → k ≠ "__proto__" → is_Some (foldl addEntry m0 l !! k).
Proof.
  induction l as [|it l IH]; simpl; intros m0 k v Hin Hk.
  - by apply elem_of_nil in Hin.
  - apply elem_of_cons in Hin as [<-|Hin]; [|by eapply IH].
    apply addEntry_fold_mono. simpl. unfold set_prop.
    rewrite decide_False by done. rewrite lookup_insert_eq. by eexists.
Qed.

(** The key [__proto__] is never written. *)
Lemma addEntry_fold_proto l : ∀ m0,
  foldl addEntry m0 l !! "__proto__" = m0 !! "__proto__".
Proof.
  induction l as [|it l IH]; intros m0; simpl; [done|].
  rewrite IH. destruct it as [[key val]|]; simpl; [|done].
  unfold set_prop. case_decide; [done|]. by rewrite lookup_insert_ne.
Qed.

(** Every entry of the parsed map comes from a kept fragment. *)
Lemma buildFromFragments_lookup frags k v :
  buildFromFragments frags !! k = Some v →
  ∃ it, it ∈ frags ∧ toKeyValue it = Some (k, v).
Proof.
  intros H. apply addEntry_fold_lookup in H as [H|H].
  - by rewrite lookup_empty in H.
  - apply list_elem_of_filter in H as [_ H].
    apply list_elem_of_fmap in H as (it & Heq & Hin). eauto.
Qed.

Lemma buildFromFragments_has frags it k v :
  it ∈ frags → toKeyValue it = Some (k, v) → k ≠ "__proto__" →
  is_Some (buildFromFragments frags !! k).
Proof.
  intros Hin Hkv Hk. eapply addEntry_fold_has; [|done].
  apply list_elem_of_filter. split; [done|].
  apply list_elem_of_fmap. exists it. eauto.
Qed.

End Parser.

(** * Properties of the cache *)

Section Cache.

Lemma extendObject_pair (v1 v2 : NgStyleType) :
  extendObject ∅ [v1; v2] = ownProps v2 ∪ ownProps v1.
Proof. unfold extendObject. simpl. by rewrite (right_id_L ∅ (∪)). Qed.

Lemma cacheInput_inputMap key source cacheRaw b :
  inputMap (cacheInput key source cacheRaw true b)
  = <[key := Obj (ownProps (_buildStyleMap source) ∪ ownProps (inputMapAt "style" b))]>
      (inputMap b).
Proof. unfold cacheInput. by rewrite extendObject_pair. Qed.

Lemma cacheInput_mqActivation key source cacheRaw merge b :
  mqActivation (cacheInput key source cacheRaw merge b) = mqActivation b.
Proof. done. Qed.

Lemma cacheInput_at key source cacheRaw b :
  inputMapAt key (cacheInput key source cacheRaw true b)
  = Obj (ownProps (_buildStyleMap source) ∪ ownProps (inputMapAt "style" b)).
Proof. unfold inputMapAt. by rewrite cacheInput_inputMap, lookup_insert_eq. Qed.

Lemma cacheInput_at_ne key k source cacheRaw merge b :
  key ≠ k →
  inputMapAt k (cacheInput key source cacheRaw merge b) = inputMapAt k b.
Proof.
  intros Hne. unfold inputMapAt, cacheInput, base_cacheInput. simpl.
  by rewrite lookup_insert_ne.
Qed.

Lemma base_setInput key val d :
  _base (setInput key val d) = cacheInput key val true true (_base d).
Proof. unfold setInput. destruct (decide (key = "style")); by subst. Qed.

Lemma setInputs_snoc calls c d :
  setInputs (calls ++ [c]) d = setInput c.1 c.2 (setInputs calls d).
Proof. unfold setInputs. by rewrite foldl_app. Qed.

(** The constructor always leaves a property map under the base key. *)
Lemma constructor_base inline :
  inputMapAt "style" (_base (constructor inline)) = Obj (ownProps (_buildStyleMap inline)).
Proof.
  unfold constructor. simpl. rewrite cacheInput_at.
  unfold inputMapAt, _buildAdapter. simpl. rewrite lookup_empty. simpl.
  by rewrite (right_id_L ∅ (∪)).
Qed.

(** Once a key is cached through a setter it holds a property map, and
    later inputs keep it that way. *)
Lemma setInputs_cached calls : ∀ d key,
  (key ∈ calls.*1 ∨ ∃ m, inputMapAt key (_base d) = Obj m) →
  ∃ m, inputMapAt key (_base (setInputs calls d)) = Obj m.
Proof.
  induction calls as [|c calls IH] using rev_ind; intros d key H.
  - destruct H as [H|H]; [by apply elem_of_nil in H | done].
  - rewrite setInputs_snoc, base_setInput.
    destruct (decide (c.1 = key)) as [<-|Hne].
    + rewrite cacheInput_at. by eexists.
    + rewrite cacheInput_at_ne by done. apply IH.
      destruct H as [H|H]; [left | by right].
      rewrite fmap_app in H. apply elem_of_app in H as [H|H]; [done|].
      simpl in H. apply list_elem_of_singleton in H. congruence.
Qed.

Lemma setInputs_mqActivation calls : ∀ d,
  mqActivation (_base (setInputs calls d)) = mqActivation (_base d).
Proof.
  induction calls as [|c calls IH] using rev_ind; intros d; [done|].
  by rewrite setInputs_snoc, base_setInput, cacheInput_mqActivation.
Qed.

End Cache.

(** * Properties of the activation *)

Section Activation.

Lemma candidates_last base b l1 bp l2 :
  eligible base b bp →
  Forall (λ bp', ¬ eligible base b bp') l2 →
  last (candidates base (l1 ++ bp :: l2) b) = Some bp.
Proof.
  intros Hbp Hl2. unfold candidates.
  rewrite filter_app, filter_cons_True by exact Hbp.
  assert (Hnil : filter (λ bp0, matches bp0 = true
                                ∧ keyInUse (base +:+ suffix bp0) b = true) l2 = []).
  { induction Hl2 as [|x l Hx _ IH]; [done|].
    by rewrite filter_cons_False. }
  rewrite Hnil. by rewrite last_snoc.
Qed.

Lemma candidates_none base b bps :
  Forall (λ bp', ¬ eligible base b bp') bps → candidates base bps b = [].
Proof.
  unfold candidates. induction 1 as [|x l Hx _ IH]; [done|].
  by rewrite filter_cons_False.
Qed.

(** What handling an event leaves behind, for a directive that listens,
    when the event changes the active key. *)
Lemma onMediaQueryChange_listening bps d act :
  mqActivation (_base d) = Some act →
  resolveKey (baseKey act) bps (_base d) ≠ activatedInputKey act →
  onMediaQueryChange bps d
  = let key := resolveKey (baseKey act) bps (_base d) in
    let k := default (baseKey act) key in
    {| _base := {| inputMap := inputMap (_base d);
                   mqActivation := Some {| baseKey := baseKey act;
                                           defaultValue := defaultValue act;
                                           activatedInputKey := key |} |};
       ngStyle := if keyInUse k (_base d) then inputMapAt k (_base d)
                  else defaultValue act |}.
Proof.
  intros Hact Hne. unfold onMediaQueryChange. rewrite Hact.
  rewrite decide_False by done.
  unfold onMonitorEvent. rewrite Hact. simpl.
  unfold _updateStyle. simpl. done.
Qed.

(** An event that leaves the active key as it is changes nothing. *)
Lemma onMediaQueryChange_same bps d act :
  mqActivation (_base d) = Some act →
  resolveKey (baseKey act) bps (_base d) = activatedInputKey act →
  onMediaQueryChange bps d = d.
Proof.
  intros Hact Heq. unfold onMediaQueryChange. rewrite Hact.
  by rewrite decide_True.
Qed.

(** After an event the active style is read under the resolved key. *)
Lemma activeStyle_onMediaQueryChange bps d act :
  mqActivation (_base d) = Some act →
  activeStyle (onMediaQueryChange bps d)
  = let k := default (baseKey act) (resolveKey (baseKey act) bps (_base d)) in
    if keyInUse k (_base d) then inputMapAt k (_base d) else defaultValue act.
Proof.
  intros Hact.
  destruct (decide (resolveKey (baseKey act) bps (_base d) = activatedInputKey act))
    as [Heq|Hne].
  - rewrite (onMediaQueryChange_same _ _ _ Hact Heq).
    unfold activeStyle. rewrite Hact. unfold activatedInput. by rewrite Heq.
  - by rewrite (onMediaQueryChange_listening _ _ _ Hact Hne).
Qed.

End Activation.

(** * The claims about the parser *)

Section ParserClaims.

Lemma split_elem_no_sep sep s x :
  x ∈ JsString.split sep s → JsString.contains sep x = false.
Proof.
  revert x. induction s as [|c rest IH]; simpl; intros x Hx.
  - apply list_elem_of_singleton in Hx. by subst.
  - destruct (Ascii.eqb c sep) eqn:Hc.
    + apply elem_of_cons in Hx as [->|Hx]; [done | by apply IH].
    + destruct (JsString.split sep rest) as [|hd tl] eqn:Hs.
      * apply list_elem_of_singleton in Hx. subst. simpl. by rewrite Hc.
      * apply elem_of_cons in Hx as [->|Hx].
        -- simpl. rewrite Hc. simpl. apply IH. by left.
        -- apply IH. by right.
Qed.

Lemma trimStart_no_char c s :
  JsString.contains c s = false → JsString.contains c (JsString.trimStart s) = false.
Proof.
  induction s as [|a rest IH]; simpl; [done|].
  intros [Ha Hrest]%orb_false_iff.
  destruct (JsString.isWhiteSpace a); [by apply IH|].
  simpl. by rewrite Ha, Hrest.
Qed.

Lemma trimEnd_no_char c s :
  JsString.contains c s = false → JsString.contains c (JsString.trimEnd s) = false.
Proof.
  induction s as [|a rest IH]; simpl; [done|].
  intros [Ha Hrest]%orb_false_iff. specialize (IH Hrest).
  destruct (JsString.trimEnd rest) as [|a' rest'].
  - destruct (JsString.isWhiteSpace a); simpl; [done|]. by rewrite Ha.
  - simpl in *. by rewrite Ha, IH.
Qed.

(** C3 (the code departs from the claim).  Normalisation turns "," into ";"
    with [replace], which rewrites the first comma only: the spec's
    one-comma example parses as stated, but in "a:1,b:2,c:3" the second
    comma stays inside a fragment and ends up in the value of [b]. *)
Theorem C3_only_first_comma_separates :
  _buildStyleMap (Str "color:red,font-size:12px")
    = Obj {[ "color" := "red"; "font-size" := "12px" ]}
  ∧ fragments "a:1,b:2,c:3" = ["a:1"; "b:2,c:3"]
  ∧ _buildStyleMap (Str "a:1,b:2,c:3") = Obj {[ "a" := "1"; "b" := "2,c" ]}.
Proof. repeat split; by_evaluation. Qed.

(** No value of a kept declaration contains a colon. *)
Lemma toKeyValue_value_no_colon it k v :
  toKeyValue it = Some (k, v) → JsString.contains ":" v = false.
Proof.
  intros (key & val & _ & Hval & _ & _ & ->)%toKeyValue_Some.
  unfold JsString.trim. apply trimEnd_no_char, trimStart_no_char.
  eapply split_elem_no_sep, list_elem_of_lookup. eauto.
Qed.

(** Keys and values of kept declarations are trimmed. *)
Lemma toKeyValue_trimmed it k v :
  toKeyValue it = Some (k, v) → trimmed k ∧ trimmed v.
Proof.
  intros (key & val & _ & _ & _ & -> & ->)%toKeyValue_Some.
  split; apply trim_trimmed.
Qed.

(** C4 (the code departs from the claim).  A fragment is split on every
    ":" and only the first two pieces are kept, so the value is the text
    between the first and the second colon: "background:url(http://x)"
    yields the value "url(http", not "url(http://x)". *)
Theorem C4_value_stops_at_second_colon :
  JsString.split ":" "background:url(http://x)" = ["background"; "url(http"; "//x)"]
  ∧ toKeyValue "background:url(http://x)" = Some ("background", "url(http")
  ∧ _buildStyleMap (Str "background:url(http://x)")
      = Obj {[ "background" := "url(http" ]}.
Proof. repeat split; by_evaluation. Qed.

(** C5 (the code departs from the claim).  Keys and values are trimmed,
    but [replace] strips the first "'" of the key only: the quoted key of
    "'color':red" keeps its closing quote. *)
Theorem C5_only_first_quote_removed :
  JsString.replace "'" EmptyString "'color'" = "color'"
  ∧ toKeyValue " 'color' : red " = Some ("color'", "red")
  ∧ _buildStyleMap (Str "'color':red") = Obj {[ "color'" := "red" ]}.
Proof. repeat split; by_evaluation. Qed.

(** C6.  Parsing is permissive: a fragment without a colon, or whose
    value after the split is empty, yields no declaration and can be
    removed from the fragment list without changing the result; every
    string parses to a property map (no error case exists), whose entries
    all come from kept fragments; "color:red;justcolor" yields
    {color: "red"}. *)
Theorem C6_permissive_parsing (value it : string)
    (Hbad : JsString.contains ":" it = false
            ∨ JsString.split ":" it !! 1%nat = Some EmptyString) :
  toKeyValue it = None
  ∧ (∀ l1 l2, buildFromFragments (l1 ++ it :: l2) = buildFromFragments (l1 ++ l2))
  ∧ (∃ m, _buildStyleMap (Str value) = Obj m
          ∧ ∀ k v, m !! k = Some v →
                   ∃ frag, frag ∈ fragments value ∧ toKeyValue frag = Some (k, v))
  ∧ _buildStyleMap (Str "color:red;justcolor") = Obj {[ "color" := "red" ]}.
Proof.
  assert (Hnone : toKeyValue it = None).
  { destruct Hbad; [by apply toKeyValue_no_colon | by apply toKeyValue_empty_val]. }
  split; [done|]. split; [|split].
  - intros l1 l2. by apply buildFromFragments_drop.
  - eexists. split; [reflexivity|]. apply buildFromFragments_lookup.
  - vm_compute. reflexivity.
Qed.

Lemma C6_permissive_parsing_witness :
  toKeyValue "justcolor" = None
  ∧ toKeyValue "color:" = None
  ∧ buildFromFragments ["color:red"; "justcolor"] = buildFromFragments ["color:red"].
Proof.
  split; [|split].
  - apply (C6_permissive_parsing EmptyString "justcolor"). left. reflexivity.
  - apply (C6_permissive_parsing EmptyString "color:"). right. reflexivity.
  - destruct (C6_permissive_parsing EmptyString "justcolor" (or_introl eq_refl))
      as (_ & Hdrop & _).
    apply (Hdrop ["color:red"] []).
Defined.

End ParserClaims.

(** * The claims about the cache *)

Section CacheClaims.

Lemma styleBases_frame vals : ∀ d k,
  k ≠ "style" →
  inputMap (_base (styleBases vals d)) !! k = inputMap (_base d) !! k.
Proof.
  induction vals as [|v vals IH] using rev_ind; intros d k Hk; [done|].
  unfold styleBases. rewrite foldl_app. cbn [foldl].
  change (_base (styleBase v ?x)) with (cacheInput "style" v true true (_base x)).
  rewrite cacheInput_inputMap, lookup_insert_ne by done.
  by apply IH.
Qed.

(** C2.  First-write merge: caching an input under a breakpoint key
    merges it onto the base map of that moment, and no later base input
    changes any cache entry other than the base one; the breakpoint entry
    stays the merge against the old base. *)
Theorem C2_first_write_merge (d : StyleDirective) (key : string)
    (val : NgStyleType) (bases : list NgStyleType) (Hkey : key ≠ "style") :
  inputMapAt key (_base (ngStyleBp key val d))
    = Obj (extendObject ∅ [inputMapAt "style" (_base d); _buildStyleMap val])
  ∧ (∀ k, k ≠ "style" →
          inputMap (_base (styleBases bases (ngStyleBp key val d))) !! k
          = inputMap (_base (ngStyleBp key val d)) !! k)
  ∧ inputMapAt key (_base (styleBases bases (ngStyleBp key val d)))
    = Obj (extendObject ∅ [inputMapAt "style" (_base d); _buildStyleMap val]).
Proof.
  assert (H1 : inputMapAt key (_base (ngStyleBp key val d))
               = Obj (extendObject ∅ [inputMapAt "style" (_base d); _buildStyleMap val])).
  { cbn [ngStyleBp _base]. by rewrite cacheInput_at, extendObject_pair. }
  split; [done|]. split.
  - intros k Hk. by apply styleBases_frame.
  - rewrite <- H1. unfold inputMapAt. by rewrite styleBases_frame.
Qed.

Lemma C2_first_write_merge_witness :
  inputMapAt "styleXs"
    (_base (styleBases [Str "a:1"] (ngStyleBp "styleXs" (Str "b:2") (constructor Null))))
  = Obj {[ "b" := "2" ]}.
Proof.
  destruct (C2_first_write_merge (constructor Null) "styleXs" (Str "b:2") [Str "a:1"])
    as (_ & _ & H).
  - intros [=].
  - rewrite H. vm_compute. reflexivity.
Defined.

(** C7.  Merge precedence: the cached result is the base map overwritten
    by the parsed map; a key of the parsed map carries the parsed value,
    every other key carries the base value; "b:2" over {a:"1", b:"1"}
    gives {a:"1", b:"2"}. *)
Theorem C7_merge_precedence (b : BaseFxDirectiveAdapter) (key : string)
    (source : NgStyleType) (base parsed : gmap string string)
    (Hbase : inputMapAt "style" b = Obj base)
    (Hparsed : _buildStyleMap source = Obj parsed) :
  let result := extendObject ∅ [Obj base; Obj parsed] in
  inputMapAt key (cacheInput key source true true b) = Obj result
  ∧ (∀ k v, parsed !! k = Some v → result !! k = Some v)
  ∧ (∀ k, parsed !! k = None → result !! k = base !! k)
  ∧ inputMapAt "styleXs"
      (cacheInput "styleXs" (Str "b:2") true true
         (base_cacheInput "style" (Obj {[ "a" := "1"; "b" := "1" ]}) true _buildAdapter))
    = Obj {[ "a" := "1"; "b" := "2" ]}.
Proof.
  intros result. unfold result. rewrite extendObject_pair. simpl.
  split; [|split; [|split]].
  - by rewrite cacheInput_at, Hbase, Hparsed.
  - intros k v Hk. by apply lookup_union_Some_l.
  - intros k Hk. by apply lookup_union_r.
  - vm_compute. reflexivity.
Qed.

Lemma C7_merge_precedence_witness :
  inputMapAt "styleMd"
    (cacheInput "styleMd" (Str "b:2") true true
       (base_cacheInput "style" (Obj {[ "a" := "1"; "b" := "1" ]}) true _buildAdapter))
  = Obj (extendObject ∅ [Obj {[ "a" := "1"; "b" := "1" ]}; Obj {[ "b" := "2" ]}]).
Proof.
  apply (C7_merge_precedence
           (base_cacheInput "style" (Obj {[ "a" := "1"; "b" := "1" ]}) true _buildAdapter)
           "styleMd" (Str "b:2") {[ "a" := "1"; "b" := "1" ]} {[ "b" := "2" ]}).
  - vm_compute. reflexivity.
  - vm_compute. reflexivity.
Defined.

(** C8, as stated, fails: after the base inputs "color:red" and then
    "font-size:12px", the key [color] of the first input, absent from the
    second, is still in the cached base map. *)
Lemma C8_counterexample :
  let d := styleBase (Str "font-size:12px")
             (styleBase (Str "color:red") (constructor Null)) in
  ownProps (_buildStyleMap (Str "color:red")) !! "color" = Some "red"
  ∧ ownProps (_buildStyleMap (Str "font-size:12px")) !! "color" = None
  ∧ inputMapAt "style" (_base d) = Obj {[ "color" := "red"; "font-size" := "12px" ]}
  ∧ ¬ (∀ v1 v2 k,
         is_Some (ownProps (_buildStyleMap v1) !! k) →
         ownProps (_buildStyleMap v2) !! k = None →
         ownProps (inputMapAt "style"
                     (_base (styleBase v2 (styleBase v1 (constructor Null))))) !! k
         = None).
Proof.
  intros d. do 3 (split; [by_evaluation|]).
  intros H.
  specialize (H (Str "color:red") (Str "font-size:12px") "color").
  vm_compute in H. by discriminate H; [eexists|].
Qed.

(** C8 (amended).  Each key has one cache entry and a later input for
    the same key replaces it.  For a breakpoint key the new entry does
    not depend on the entry it replaces.  For the base key the new entry
    is the new input merged over the previous cached base map, so a key
    of the earlier base input that the new input lacks survives with its
    value. *)
Theorem C8_input_replacement (b : BaseFxDirectiveAdapter) (key : string)
    (v1 v2 : NgStyleType) :
  let b1 := cacheInput key v1 true true b in
  let b2 := cacheInput key v2 true true b1 in
  inputMap b2 !! key
    = Some (Obj (extendObject ∅ [inputMapAt "style" b1; _buildStyleMap v2]))
  ∧ (key ≠ "style" →
     inputMapAt key b2 = inputMapAt key (cacheInput key v2 true true b))
  ∧ (key = "style" →
     inputMapAt key b2
     = Obj (extendObject ∅ [inputMapAt "style" b; _buildStyleMap v1; _buildStyleMap v2])
     ∧ ∀ k v, ownProps (_buildStyleMap v1) !! k = Some v →
              ownProps (_buildStyleMap v2) !! k = None →
              ownProps (inputMapAt key b2) !! k = Some v).
Proof.
  intros b1 b2. unfold b2, b1. split; [|split].
  - by rewrite cacheInput_inputMap, lookup_insert_eq, extendObject_pair.
  - intros Hkey. rewrite !cacheInput_at.
    by rewrite (cacheInput_at_ne key "style").
  - intros ->. rewrite !cacheInput_at. unfold extendObject. simpl.
    rewrite (right_id_L ∅ (∪)). split; [done|].
    intros k v H1 H2. rewrite lookup_union_r by done.
    by apply lookup_union_Some_l.
Qed.

Lemma C8_input_replacement_witness :
  inputMapAt "styleXs"
    (cacheInput "styleXs" (Str "b:2") true true
       (cacheInput "styleXs" (Str "a:1") true true _buildAdapter))
  = inputMapAt "styleXs" (cacheInput "styleXs" (Str "b:2") true true _buildAdapter)
  ∧ ownProps (inputMapAt "style"
       (cacheInput "style" (Str "b:2") true true
          (cacheInput "style" (Str "a:1") true true _buildAdapter))) !! "a"
    = Some "1".
Proof.
  split.
  - apply (C8_input_replacement _buildAdapter "styleXs" (Str "a:1") (Str "b:2")).
    intros [=].
  - destruct (C8_input_replacement _buildAdapter "style" (Str "a:1") (Str "b:2"))
      as (_ & _ & H).
    destruct (H eq_refl) as [_ Hkeep]. apply Hkeep; vm_compute; reflexivity.
Defined.

(** C9, as stated, fails: an array or a set cached through a setter over
    the base {color: "red"} is merged onto the base and the entry is a
    property map, not an array or a set. *)
Lemma C9_counterexample :
  let d := styleBase (Str "color:red") (constructor Null) in
  inputMapAt "styleXs" (_base (ngStyleXs (Arr ["bold"]) d))
    = Obj {[ "0" := "bold"; "color" := "red" ]}
  ∧ inputMapAt "styleXs" (_base (ngStyleXs (SetOf ["bold"]) d))
    = Obj {[ "color" := "red" ]}
  ∧ ¬ (∀ l key b, inputMapAt key (cacheInput key (Arr l) true true b) = Arr l)
  ∧ ¬ (∀ l key b, inputMapAt key (cacheInput key (SetOf l) true true b) = SetOf l).
Proof.
  intros d. do 2 (split; [by_evaluation|]). split.
  - intros H. specialize (H ["bold"] "styleXs" _buildAdapter).
    rewrite cacheInput_at in H. discriminate H.
  - intros H. specialize (H ["bold"] "styleXs" _buildAdapter).
    rewrite cacheInput_at in H. discriminate H.
Qed.

(** C9 (amended).  [_buildStyleMap] returns every input that is not a
    string unchanged: a property map is used as it is, an array or a set
    keeps its type.  Cached without merging, the value is stored
    unchanged.  Cached with merging, as every setter does, the entry is a
    property map; for a property-map input it is the base map
    overwritten by the entries of the input. *)
Theorem C9_non_string_passthrough (styles : NgStyleType) (key : string)
    (b : BaseFxDirectiveAdapter) (Hns : ∀ s, styles ≠ Str s) :
  _buildStyleMap styles = styles
  ∧ inputMapAt key (cacheInput key styles true false b) = styles
  ∧ (∃ m, inputMapAt key (cacheInput key styles true true b) = Obj m)
  ∧ (∀ m, styles = Obj m →
          inputMapAt key (cacheInput key styles true true b)
          = Obj (m ∪ ownProps (inputMapAt "style" b))).
Proof.
  assert (H : _buildStyleMap styles = styles).
  { destruct styles; try done. by destruct (Hns s). }
  split; [done|]. split; [|split].
  - unfold inputMapAt, cacheInput, base_cacheInput. cbn [inputMap].
    by rewrite lookup_insert_eq, H.
  - rewrite cacheInput_at. by eexists.
  - intros m ->. by rewrite cacheInput_at.
Qed.

Lemma C9_non_string_passthrough_witness :
  _buildStyleMap (Arr ["bold"]) = Arr ["bold"]
  ∧ inputMapAt "styleXs" (cacheInput "styleXs" (SetOf ["bold"]) true false _buildAdapter)
    = SetOf ["bold"].
Proof.
  split.
  - apply (C9_non_string_passthrough (Arr ["bold"]) "styleXs" _buildAdapter).
    intros s. discriminate.
  - apply (C9_non_string_passthrough (SetOf ["bold"]) "styleXs" _buildAdapter).
    intros s. discriminate.
Defined.

(** C10, as stated, fails: an element may carry an inline style
    attribute from which no declaration is kept ("justcolor", or the empty
    attribute), and then the initial base map is empty. *)
Lemma C10_counterexample :
  inputMapAt "style" (_base (constructor (Str "justcolor"))) = Obj ∅
  ∧ inputMapAt "style" (_base (constructor (Str EmptyString))) = Obj ∅
  ∧ ¬ (∀ attr, inputMapAt "style" (_base (constructor (Str attr))) ≠ Obj ∅).
Proof.
  do 2 (split; [by_evaluation|]).
  intros H. apply (H "justcolor"). by_evaluation.
Qed.

(** C10 (amended).  The constructor caches the inline style attribute as
    the base input, parsed and merged exactly as the base setter caches
    its input; the initial base map is the parsed attribute.  It is not
    empty whenever the attribute holds a fragment that the parser keeps
    (under a key other than [__proto__]); it is empty when the attribute
    holds no such fragment, and when the attribute is absent. *)
Theorem C10_initial_base_seeding (attr : string) :
  _base (constructor (Str attr))
    = _base (styleBase (Str attr) {| _base := _buildAdapter; ngStyle := Undefined |})
  ∧ inputMapAt "style" (_base (constructor (Str attr)))
    = Obj (buildFromFragments (fragments attr))
  ∧ ((∃ frag k v, frag ∈ fragments attr ∧ toKeyValue frag = Some (k, v)
                  ∧ k ≠ "__proto__") →
     inputMapAt "style" (_base (constructor (Str attr))) ≠ Obj ∅)
  ∧ ((∀ frag k v, frag ∈ fragments attr → toKeyValue frag = Some (k, v) →
                  k = "__proto__") →
     inputMapAt "style" (_base (constructor (Str attr))) = Obj ∅)
  ∧ inputMapAt "style" (_base (constructor Null)) = Obj ∅.
Proof.
  assert (Hbase : inputMapAt "style" (_base (constructor (Str attr)))
                  = Obj (buildFromFragments (fragments attr))).
  { by rewrite constructor_base. }
  split; [done|]. split; [done|]. split; [|split].
  - intros (frag & k & v & Hin & Hkept & Hk). rewrite Hbase. intros [= Hempty].
    destruct (buildFromFragments_has _ _ _ _ Hin Hkept Hk) as [x Hx].
    by rewrite Hempty, lookup_empty in Hx.
  - intros Hnone. rewrite Hbase. f_equal.
    apply map_empty. intros k.
    destruct (buildFromFragments (fragments attr) !! k) as [v|] eqn:Hkv; [|done].
    exfalso.
    destruct (buildFromFragments_lookup _ _ _ Hkv) as (frag & Hin & Hkept).
    rewrite (Hnone _ _ _ Hin Hkept) in Hkv.
    unfold buildFromFragments in Hkv.
    by rewrite addEntry_fold_proto, lookup_empty in Hkv.
  - by rewrite constructor_base.
Qed.

Lemma C10_initial_base_seeding_witness :
  inputMapAt "style" (_base (constructor (Str "color: red; margin: 0"))) ≠ Obj ∅
  ∧ inputMapAt "style" (_base (constructor (Str "justcolor;__proto__:x"))) = Obj ∅.
Proof.
  split.
  - destruct (C10_initial_base_seeding "color: red; margin: 0") as (_ & _ & H & _).
    apply H. exists "color: red", "color", "red".
    split; [vm_compute; left | split; [reflexivity | intros [=]]].
  - destruct (C10_initial_base_seeding "justcolor;__proto__:x") as (_ & _ & _ & H & _).
    apply H. intros frag k v Hin.
    vm_compute in Hin.
    apply elem_of_cons in Hin as [->|Hin]; [intros [=]|].
    apply list_elem_of_singleton in Hin as ->. by intros [= <- _].
Defined.

End CacheClaims.

(** * The claim about the activation *)

Section ActivationClaims.

Lemma keyInUse_Obj key b m : inputMapAt key b = Obj m → keyInUse key b = true.
Proof. intros H. unfold keyInUse. rewrite H. by apply bool_decide_eq_true. Qed.

(** C1.  Activation fallback.  For a directive that listens, after a
    viewport change is handled the resolved style is the cache entry of
    the last breakpoint, in registration order, that matches and has a
    cached input; when no matching breakpoint has one, it is the cached
    base map.  When the event changes the active key, [_updateStyle]
    assigns that style to [ngStyle]; when it does not, nothing is emitted
    and the directive is left as it is.  After the constructor and any
    inputs that include one for [xs], with [Xs] matching and [GtMd] not,
    the style is the [xs] map; when no breakpoint matches afterwards, it
    is the base map. *)
Theorem C1_activation_fallback (d : StyleDirective) (act : ResponsiveActivation)
    (bps : list BreakPoint) (inline : NgStyleType)
    (calls : list (string * NgStyleType))
    (Hact : mqActivation (_base d) = Some act)
    (Hxs : "styleXs" ∈ calls.*1) :
  let base := baseKey act in
  let d0 := ngOnInit (setInputs calls (constructor inline)) in
  let d1 := onMediaQueryChange [Xs true; GtMd false] d0 in
  let d2 := onMediaQueryChange [Xs false; GtMd false] d1 in
  (∀ (l1 : list BreakPoint) (bp : BreakPoint) (l2 : list BreakPoint),
      bps = (l1 ++ bp :: l2)%list →
      eligible base (_base d) bp →
      Forall (λ bp', ¬ eligible base (_base d) bp') l2 →
      activeStyle (onMediaQueryChange bps d) = inputMapAt (base +:+ suffix bp) (_base d)
      ∧ (activatedInputKey act ≠ Some (base +:+ suffix bp) →
         ngStyle (onMediaQueryChange bps d) = inputMapAt (base +:+ suffix bp) (_base d))
      ∧ (activatedInputKey act = Some (base +:+ suffix bp) →
         onMediaQueryChange bps d = d))
  ∧ (Forall (λ bp', ¬ eligible base (_base d) bp') bps →
     keyInUse base (_base d) = true →
     activeStyle (onMediaQueryChange bps d) = inputMapAt base (_base d)
     ∧ (activatedInputKey act ≠ None →
        ngStyle (onMediaQueryChange bps d) = inputMapAt base (_base d))
     ∧ (activatedInputKey act = None → onMediaQueryChange bps d = d))
  ∧ ngStyle d1 = inputMapAt "styleXs" (_base d0)
  ∧ ngStyle d2 = inputMapAt "style" (_base d0)
  ∧ activeStyle d1 = inputMapAt "styleXs" (_base d0)
  ∧ activeStyle d2 = inputMapAt "style" (_base d0)
  ∧ (∃ mx mb, inputMapAt "styleXs" (_base d0) = Obj mx
              ∧ inputMapAt "style" (_base d0) = Obj mb).
Proof.
  intros base d0 d1 d2.
  split; [|split].
  - intros l1 bp l2 -> Hbp Hl2.
    assert (Hres : resolveKey base (l1 ++ bp :: l2)%list (_base d) = Some (base +:+ suffix bp)).
    { unfold resolveKey. by rewrite (candidates_last _ _ _ _ _ Hbp Hl2). }
    split; [|split].
    + rewrite (activeStyle_onMediaQueryChange _ _ _ Hact). fold base.
      rewrite Hres. cbn [default from_option id]. by rewrite (proj2 Hbp).
    + intros Hne.
      rewrite (onMediaQueryChange_listening _ _ _ Hact) by (fold base; congruence).
      cbn [ngStyle]. fold base. rewrite Hres. cbn [default from_option id].
      by rewrite (proj2 Hbp).
    + intros Heq. apply (onMediaQueryChange_same _ _ _ Hact). fold base. congruence.
  - intros Hnone Hbase.
    assert (Hres : resolveKey base bps (_base d) = None).
    { unfold resolveKey. by rewrite (candidates_none _ _ _ Hnone). }
    split; [|split].
    + rewrite (activeStyle_onMediaQueryChange _ _ _ Hact). fold base.
      rewrite Hres. cbn [default from_option id]. by rewrite Hbase.
    + intros Hne.
      rewrite (onMediaQueryChange_listening _ _ _ Hact) by (fold base; congruence).
      cbn [ngStyle]. fold base. rewrite Hres. cbn [default from_option id].
      by rewrite Hbase.
    + intros Heq. apply (onMediaQueryChange_same _ _ _ Hact). fold base. congruence.
  - (* the scenario *)
    destruct (setInputs_cached calls (constructor inline) "styleXs" (or_introl Hxs))
      as [mx Hmx].
    destruct (setInputs_cached calls (constructor inline) "style") as [mb Hmb].
    { right. rewrite constructor_base. by eexists. }
    set (b := _base (setInputs calls (constructor inline))) in *.
    assert (Hb : mqActivation b = None).
    { unfold b. by rewrite setInputs_mqActivation. }
    assert (Hact0 : mqActivation (_base d0)
                    = Some {| baseKey := "style"; defaultValue := Str EmptyString;
                              activatedInputKey := None |}).
    { unfold d0, ngOnInit, listenForMediaQueryChanges. cbn [_base]. fold b.
      by rewrite Hb. }
    assert (Hmap0 : inputMap (_base d0) = inputMap b).
    { unfold d0, ngOnInit, listenForMediaQueryChanges. cbn [_base]. fold b.
      by rewrite Hb. }
    assert (Hat : ∀ k, inputMapAt k (_base d0) = inputMapAt k b).
    { intros k. unfold inputMapAt. by rewrite Hmap0. }
    assert (Hxs0 : keyInUse "styleXs" (_base d0) = true).
    { eapply keyInUse_Obj. by rewrite Hat. }
    assert (Hst0 : keyInUse "style" (_base d0) = true).
    { eapply keyInUse_Obj. by rewrite Hat. }
    assert (Hr1 : resolveKey "style" [Xs true; GtMd false] (_base d0) = Some "styleXs").
    { unfold resolveKey, candidates.
      rewrite filter_cons_True by (split; [done | exact Hxs0]).
      rewrite filter_cons_False by (intros [? _]; done).
      done. }
    assert (Hr2 : ∀ b', resolveKey "style" [Xs false; GtMd false] b' = None).
    { intros b'. unfold resolveKey, candidates.
      rewrite !filter_cons_False by (intros [? _]; done). done. }
    assert (Hd1 : d1 = {| _base := {| inputMap := inputMap (_base d0);
                                      mqActivation :=
                                        Some {| baseKey := "style"; defaultValue := Str EmptyString;
                                                activatedInputKey := Some "styleXs" |} |};
                          ngStyle := inputMapAt "styleXs" (_base d0) |}).
    { unfold d1. rewrite (onMediaQueryChange_listening _ _ _ Hact0).
      - cbn [baseKey defaultValue]. rewrite Hr1. cbn [default from_option id].
        by rewrite Hxs0.
      - cbn [baseKey activatedInputKey]. by rewrite Hr1. }
    assert (Hd2 : ngStyle d2 = inputMapAt "style" (_base d0)).
    { unfold d2. rewrite Hd1.
      erewrite onMediaQueryChange_listening;
        [|reflexivity|cbn [baseKey activatedInputKey _base]; by rewrite Hr2].
      cbn [baseKey defaultValue _base ngStyle].
      rewrite Hr2. cbn [default from_option id].
      change (keyInUse "style" {| inputMap := inputMap (_base d0); mqActivation := ?a |})
        with (keyInUse "style" (_base d0)).
      rewrite Hst0. done. }
    assert (Ha1 : activeStyle d1 = inputMapAt "styleXs" (_base d0)).
    { unfold d1. rewrite (activeStyle_onMediaQueryChange _ _ _ Hact0).
      cbn [baseKey defaultValue]. rewrite Hr1. cbn [default from_option id].
      by rewrite Hxs0. }
    assert (Ha2 : activeStyle d2 = inputMapAt "style" (_base d0)).
    { unfold d2. rewrite Hd1.
      erewrite activeStyle_onMediaQueryChange by reflexivity.
      cbn [baseKey defaultValue _base]. rewrite Hr2. cbn [default from_option id].
      change (keyInUse "style" {| inputMap := inputMap (_base d0); mqActivation := ?a |})
        with (keyInUse "style" (_base d0)).
      rewrite Hst0. done. }
    split; [by rewrite Hd1|]. do 3 (split; [done|]).
    exists mx, mb. by rewrite !Hat.
Qed.

Lemma C1_activation_fallback_witness :
  let d := ngOnInit (ngStyleXs (Str "b:2") (styleBase (Str "a:1;b:1") (constructor Null))) in
  ngStyle (onMediaQueryChange [Xs true; GtMd false] d) = Obj {[ "a" := "1"; "b" := "2" ]}
  ∧ ngStyle (onMediaQueryChange [Xs false; GtMd false]
               (onMediaQueryChange [Xs true; GtMd false] d))
    = Obj {[ "a" := "1"; "b" := "1" ]}
  ∧ onMediaQueryChange [Xs false; GtMd false] d = d.
Proof.
  intros d.
  destruct (C1_activation_fallback d
              {| baseKey := "style"; defaultValue := Str EmptyString; activatedInputKey := None |}
              [Xs false; GtMd false] Null
              [("style", Str "a:1;b:1"); ("styleXs", Str "b:2")])
    as (_ & Hnone & Hxs & Hbase & _).
  - reflexivity.
  - right. left.
  - split; [|split].
    + etrans; [exact Hxs | vm_compute; reflexivity].
    + etrans; [exact Hbase | vm_compute; reflexivity].
    + destruct Hnone as (_ & _ & Hsame).
      * repeat constructor; intros [H _]; discriminate H.
      * vm_compute. reflexivity.
      * by apply Hsame.
Defined.

(** A second event with the same matching breakpoint emits nothing, also
    when the cache entry of the active key was replaced in between. *)
Example same_suffix_twice_emits_nothing :
  let d := onMediaQueryChange [Xs true]
             (ngOnInit (ngStyleXs (Str "color:red") (constructor Null))) in
  ngStyle d = Obj {[ "color" := "red" ]}
  ∧ ngStyle (onMediaQueryChange [Xs true] (ngStyleXs (Str "color:blue") d))
    = Obj {[ "color" := "red" ]}
  ∧ activeStyle (onMediaQueryChange [Xs true] (ngStyleXs (Str "color:blue") d))
    = Obj {[ "color" := "blue" ]}.
Proof. repeat split; by_evaluation. Qed.

End ActivationClaims.


(** * Further properties of the string primitives *)

Section MoreStringFacts.

Lemma contains_app c s1 s2 :
  JsString.contains c (s1 +:+ s2) = JsString.contains c s1 || JsString.contains c s2.
Proof.
  induction s1 as [|a rest IH]; simpl; [done|].
  by rewrite IH, orb_assoc.
Qed.

Lemma replace_no_pat pat rep s :
  JsString.contains pat s = false → JsString.replace pat rep s = s.
Proof.
  induction s as [|a rest IH]; simpl; [done|].
  intros [Ha Hrest]%orb_false_iff. by rewrite Ha, IH.
Qed.

Lemma replace_no_char c pat rep s :
  JsString.contains c s = false → JsString.contains c rep = false →
  JsString.contains c (JsString.replace pat rep s) = false.
Proof.
  intros Hs Hrep. induction s as [|a rest IH]; simpl in *; [done|].
  apply orb_false_iff in Hs as [Ha Hrest].
  destruct (Ascii.eqb a pat).
  - by rewrite contains_app, Hrep, Hrest.
  - simpl. by rewrite Ha, IH.
Qed.

(** The pieces of a split hold no character that the string lacks. *)
Lemma split_elem_no_char c sep s x :
  JsString.contains c s = false → x ∈ JsString.split sep s →
  JsString.contains c x = false.
Proof.
  revert x. induction s as [|a rest IH]; simpl; intros x Hs Hx.
  - apply list_elem_of_singleton in Hx. by subst.
  - apply orb_false_iff in Hs as [Ha Hrest].
    destruct (Ascii.eqb a sep).
    + apply elem_of_cons in Hx as [->|Hx]; [done | by apply IH].
    + destruct (JsString.split sep rest) as [|hd tl] eqn:Hsp.
      * apply list_elem_of_singleton in Hx. subst. simpl. by rewrite Ha.
      * apply elem_of_cons in Hx as [->|Hx].
        -- simpl. rewrite Ha. simpl. apply IH; [done | by left].
        -- apply IH; [done | by right].
Qed.

Lemma split_app_sep sep s1 rest :
  JsString.contains sep s1 = false →
  JsString.split sep (s1 +:+ String sep rest) = s1 :: JsString.split sep rest.
Proof.
  induction s1 as [|a s1 IH]; simpl.
  - intros _. by rewrite Ascii.eqb_refl.
  - intros [Ha Hs1]%orb_false_iff. by rewrite Ha, (IH Hs1).
Qed.

Lemma length_split sep s :
  length (JsString.split sep s) = S (countChar sep s).
Proof.
  induction s as [|a rest IH]; simpl; [done|].
  destruct (Ascii.eqb a sep); simpl; [by rewrite IH|].
  destruct (JsString.split sep rest); simpl in *; lia.
Qed.

Lemma countChar_app c s1 s2 :
  countChar c (s1 +:+ s2) = (countChar c s1 + countChar c s2)%nat.
Proof. induction s1 as [|a rest IH]; simpl; [done|]. rewrite IH. lia. Qed.

Lemma countChar_replace c pat s :
  c ≠ pat →
  countChar c (JsString.replace pat (String c EmptyString) s)
  = (countChar c s + if JsString.contains pat s then 1 else 0)%nat.
Proof.
  intros Hne. induction s as [|a rest IH]; [done|].
  cbn [JsString.replace JsString.contains countChar].
  destruct (Ascii.eqb a pat) eqn:Hap.
  - apply Ascii.eqb_eq in Hap as ->.
    change (String c EmptyString +:+ rest) with (String c rest).
    cbn [countChar orb]. rewrite Ascii.eqb_refl.
    assert (Ascii.eqb pat c = false) as -> by (apply Ascii.eqb_neq; congruence).
    lia.
  - cbn [countChar orb]. rewrite IH. lia.
Qed.

Lemma concat_split sep s :
  String.concat (String sep EmptyString) (JsString.split sep s) = s.
Proof.
  induction s as [|a rest IH]; simpl; [done|].
  destruct (Ascii.eqb a sep) eqn:Ha.
  - apply Ascii.eqb_eq in Ha as ->.
    pose proof (split_nonempty sep rest) as Hne.
    destruct (JsString.split sep rest) as [|hd tl] eqn:Hsp; [done|].
    change (String.concat (String sep EmptyString) (EmptyString :: hd :: tl))
      with (String sep (String.concat (String sep EmptyString) (hd :: tl))).
    by rewrite IH.
  - destruct (JsString.split sep rest) as [|hd tl] eqn:Hsp.
    + by destruct (split_nonempty sep rest).
    + rewrite <- IH. by destruct tl.
Qed.

End MoreStringFacts.

(** * Further properties of the parser *)

Section MoreParser.

(** A fragment "key:rest": the key is the text before the first colon and
    the value the first piece of the rest. *)
Lemma toKeyValue_app key rest val more :
  JsString.contains ":" key = false →
  JsString.split ":" rest = val :: more →
  toKeyValue (key +:+ ":" +:+ rest)
  = if JsString.truthy val
    then Some (JsString.trim (JsString.replace "'" EmptyString key), JsString.trim val)
    else None.
Proof.
  intros Hkey Hrest. unfold toKeyValue.
  change (key +:+ ":" +:+ rest) with (key +:+ String ":" rest).
  by rewrite (split_app_sep _ _ _ Hkey), Hrest.
Qed.

Lemma addEntry_fold_other l k : ∀ m0,
  (∀ v, Some (k, v) ∉ l) → foldl addEntry m0 l !! k = m0 !! k.
Proof.
  induction l as [|it l IH]; intros m0 Hl; simpl; [done|].
  rewrite IH by (intros v Hv; apply (Hl v); by right).
  destruct it as [[key val]|]; simpl; [|done].
  unfold set_prop. case_decide; [done|].
  rewrite lookup_insert_ne; [done|].
  intros ->. apply (Hl val). by left.
Qed.

Lemma buildFromFragments_all_none frags :
  Forall (λ it, toKeyValue it = None) frags → buildFromFragments frags = ∅.
Proof.
  intros H. unfold buildFromFragments.
  assert (Hnil : filter (λ it, it ≠ None) (toKeyValue <$> frags) = []).
  { induction H as [|it l Hit _ IH]; [done|].
    rewrite fmap_cons, Hit. by rewrite filter_cons_False by (intros Hn; by apply Hn). }
  by rewrite Hnil.
Qed.

Lemma fragments_no_char c value :
  c ≠ ";"%char → JsString.contains c value = false →
  Forall (λ it, JsString.contains c it = false) (fragments value).
Proof.
  intros Hc Hv. apply Forall_forall. intros it Hit.
  eapply split_elem_no_char; [|exact Hit].
  apply replace_no_char; [done|]. cbn [JsString.contains].
  rewrite orb_false_r. apply Ascii.eqb_neq. congruence.
Qed.

(** X1.  In a fragment "key:rest" whose key has no colon, the value is the
    first colon-free piece of [rest], whatever follows it; the declaration
    is kept exactly when that piece is not empty, with the key cleaned and
    trimmed and the value trimmed.  The emptiness test comes before the
    trimming, so a value of white space only is kept as the empty value. *)
Theorem X1_fragment_key_value (key rest val : string) (more : list string)
    (Hkey : JsString.contains ":" key = false)
    (Hrest : JsString.split ":" rest = val :: more) :
  toKeyValue (key +:+ ":" +:+ rest)
  = if JsString.truthy val
    then Some (JsString.trim (JsString.replace "'" EmptyString key), JsString.trim val)
    else None.
Proof.
  unfold toKeyValue.
  change (key +:+ ":" +:+ rest) with (key +:+ String ":" rest).
  rewrite (split_app_sep ":" key rest Hkey), Hrest.
  reflexivity.
Qed.

Lemma X1_fragment_key_value_witness :
  toKeyValue ("color" +:+ ":" +:+ " ") = Some ("color", EmptyString)
  ∧ toKeyValue (" margin " +:+ ":" +:+ " 0 auto :x") = Some ("margin", "0 auto").
Proof.
  split.
  - apply (X1_fragment_key_value "color" " " " " []); reflexivity.
  - apply (X1_fragment_key_value " margin " " 0 auto :x" " 0 auto " ["x"]); reflexivity.
Defined.

(** X2.  Declarations are folded left to right: the value stored under a
    key is that of the last kept fragment with this key. *)
Theorem X2_later_declaration_wins (l1 l2 : list string) (it k v : string)
    (Hit : toKeyValue it = Some (k, v))
    (Hk : k ≠ "__proto__")
    (Hl2 : ∀ it' v', it' ∈ l2 → toKeyValue it' ≠ Some (k, v')) :
  buildFromFragments (l1 ++ it :: l2) !! k = Some v.
Proof.
  unfold buildFromFragments.
  rewrite fmap_app, fmap_cons, Hit, filter_app, foldl_app.
  rewrite filter_cons_True by done. cbn [foldl addEntry].
  rewrite addEntry_fold_other.
  - unfold set_prop. rewrite decide_False by done. apply lookup_insert_eq.
  - intros v' Hin. apply list_elem_of_filter in Hin as [_ Hin].
    apply list_elem_of_fmap in Hin as (it' & Heq & Hin').
    by apply (Hl2 it' v').
Qed.

Lemma X2_later_declaration_wins_witness :
  buildFromFragments (["color:red"] ++ "color:blue" :: ["margin:0"]) !! "color"
  = Some "blue".
Proof.
  apply (X2_later_declaration_wins ["color:red"] ["margin:0"] "color:blue" "color" "blue").
  - reflexivity.
  - intros [=].
  - intros it' v' Hin. apply list_elem_of_singleton in Hin as ->.
    vm_compute. intros [=].
Defined.

(** X3.  A style string without any colon parses to the empty map. *)
Theorem X3_no_colon_empty_map (value : string)
    (Hvalue : JsString.contains ":" value = false) :
  _buildStyleMap (Str value) = Obj ∅.
Proof.
  simpl. f_equal. apply buildFromFragments_all_none.
  eapply Forall_impl; [by apply (fragments_no_char ":" value)|].
  intros it Hit. by apply toKeyValue_no_colon.
Qed.

Lemma X3_no_colon_empty_map_witness :
  _buildStyleMap (Str "red; bold, 12px") = Obj ∅.
Proof. apply X3_no_colon_empty_map. reflexivity. Defined.

(** X4.  The fragments of a style string: one more than its semicolons,
    plus one if it has a comma at all (further commas do not count), and
    joined again by ";" they give the string with its first comma turned
    into a semicolon. *)
Theorem X4_fragments_count_and_join (value : string) :
  length (fragments value)
  = S (countChar ";" value + if JsString.contains "," value then 1 else 0)
  ∧ String.concat ";" (fragments value) = JsString.replace "," ";" value.
Proof.
  unfold fragments. split.
  - rewrite length_split. f_equal. by apply countChar_replace.
  - apply concat_split.
Qed.

Lemma trim_no_char c s :
  JsString.contains c s = false → JsString.contains c (JsString.trim s) = false.
Proof. intros H. unfold JsString.trim. by apply trimEnd_no_char, trimStart_no_char. Qed.

(** X5.  Whatever the style string, the keys and values of the parsed map
    are trimmed and hold neither a colon nor a semicolon. *)
Theorem X5_entries_are_clean (value k v : string)
    (Hkv : buildFromFragments (fragments value) !! k = Some v) :
  trimmed k ∧ trimmed v
  ∧ JsString.contains ":" k = false ∧ JsString.contains ":" v = false
  ∧ JsString.contains ";" k = false ∧ JsString.contains ";" v = false.
Proof.
  apply buildFromFragments_lookup in Hkv as (it & Hin & Hit).
  assert (Hsemi : JsString.contains ";" it = false).
  { eapply split_elem_no_sep. exact Hin. }
  destruct (toKeyValue_Some _ _ _ Hit) as (key & val & Hkey & Hval & _ & -> & ->).
  apply list_elem_of_lookup_2 in Hkey, Hval.
  repeat split; try apply trim_trimmed; apply trim_no_char.
  - apply replace_no_char; [|done]. by eapply split_elem_no_sep.
  - by eapply split_elem_no_sep.
  - apply replace_no_char; [|done]. by eapply split_elem_no_char.
  - by eapply split_elem_no_char.
Qed.

Lemma X5_entries_are_clean_witness :
  trimmed "url(http" ∧ JsString.contains ":" "url(http" = false.
Proof.
  destruct (X5_entries_are_clean " background : url(http://x) ; color:red"
              "background" "url(http") as (_ & Ht & _ & Hc & _).
  - vm_compute. reflexivity.
  - split; [exact Ht | exact Hc].
Defined.

(** X6.  The keys of the parsed map are exactly the keys of the kept
    fragments, except that [__proto__] is never a key. *)
Theorem X6_parsed_keys (value k : string) :
  is_Some (buildFromFragments (fragments value) !! k)
  ↔ k ≠ "__proto__"
    ∧ ∃ it v, it ∈ fragments value ∧ toKeyValue it = Some (k, v).
Proof.
  split.
  - intros [v Hv]. split.
    + intros ->. unfold buildFromFragments in Hv.
      by rewrite addEntry_fold_proto, lookup_empty in Hv.
    + apply buildFromFragments_lookup in Hv as (it & Hin & Hit). eauto.
  - intros (Hk & it & v & Hin & Hit). by eapply buildFromFragments_has.
Qed.

Lemma X6_parsed_keys_witness :
  is_Some (buildFromFragments (fragments "a:1;__proto__:x") !! "a")
  ∧ ¬ is_Some (buildFromFragments (fragments "a:1;__proto__:x") !! "__proto__").
Proof.
  split.
  - apply (X6_parsed_keys "a:1;__proto__:x" "a"). split; [intros [=]|].
    exists "a:1", "1". split; [vm_compute; left | reflexivity].
  - intros H. apply (X6_parsed_keys "a:1;__proto__:x" "__proto__") in H as [H _].
    by apply H.
Defined.

Lemma contains_concat c sep xs :
  JsString.contains c sep = false →
  Forall (λ x, JsString.contains c x = false) xs →
  JsString.contains c (String.concat sep xs) = false.
Proof.
  intros Hsep. induction 1 as [|x l Hx Hl IH]; [done|].
  destruct l as [|y l]; [done|].
  change (String.concat sep (x :: y :: l)) with (x +:+ sep +:+ String.concat sep (y :: l)).
  by rewrite !contains_app, Hx, Hsep, IH.
Qed.

Lemma split_concat sep xs :
  xs ≠ [] →
  Forall (λ x, JsString.contains sep x = false) xs →
  JsString.split sep (String.concat (String sep EmptyString) xs) = xs.
Proof.
  intros Hne. induction 1 as [|x l Hx Hl IH]; [done|].
  destruct l as [|y l]; [by apply split_no_sep|].
  change (String.concat (String sep EmptyString) (x :: y :: l))
    with (x +:+ String sep (String.concat (String sep EmptyString) (y :: l))).
  rewrite split_app_sep by done. by rewrite IH.
Qed.

Lemma toKeyValue_declaration k v :
  cleanKey k → cleanValue v → toKeyValue (declaration (k, v)) = Some (k, v).
Proof.
  intros ((Hkc & _ & _) & Hkq & Hkt) ((Hvc & _ & _) & Hvt & Hvne).
  unfold declaration. cbn [fst snd].
  rewrite (toKeyValue_app k v v []) by (done || by apply split_no_sep).
  destruct v as [|c v]; [done|]. cbn [JsString.truthy].
  rewrite (replace_no_pat _ _ _ Hkq). unfold trimmed in *. by rewrite Hkt, Hvt.
Qed.

Lemma declaration_no_char c k v :
  c ≠ ":"%char → JsString.contains c k = false → JsString.contains c v = false →
  JsString.contains c (declaration (k, v)) = false.
Proof.
  intros Hc Hk Hv. unfold declaration. cbn [fst snd].
  rewrite !contains_app, Hk, Hv. cbn [JsString.contains orb].
  rewrite !orb_false_r. apply Ascii.eqb_neq. congruence.
Qed.

Lemma addEntry_fold_list_to_map (l : list (string * string)) : ∀ m0,
  NoDup l.*1 → "__proto__" ∉ l.*1 →
  foldl addEntry m0 (Some <$> l) = list_to_map l ∪ m0.
Proof.
  induction l as [|[k v] l IH]; intros m0 Hnd Hp; simpl.
  - by rewrite (left_id_L ∅ (∪)).
  - apply NoDup_cons in Hnd as [Hk Hnd]. apply not_elem_of_cons in Hp as [Hp1 Hp].
    rewrite IH by done. unfold set_prop. rewrite decide_False by done.
    rewrite <- insert_union_r by (by apply not_elem_of_list_to_map_1).
    by rewrite insert_union_l.
Qed.

Lemma fragments_styleString decls :
  decls ≠ [] →
  Forall (λ kv, cleanKey kv.1 ∧ cleanValue kv.2) decls →
  fragments (styleString decls) = declaration <$> decls.
Proof.
  intros Hne Hclean. unfold fragments, styleString.
  rewrite replace_no_pat.
  - apply split_concat; [by destruct decls|].
    apply Forall_fmap. eapply Forall_impl; [exact Hclean|].
    intros [k v] [((_ & Hk & _) & _) ((_ & Hv & _) & _)].
    by apply declaration_no_char.
  - apply contains_concat; [done|].
    apply Forall_fmap. eapply Forall_impl; [exact Hclean|].
    intros [k v] [((_ & _ & Hk) & _) ((_ & _ & Hv) & _)].
    by apply declaration_no_char.
Qed.

Lemma kept_declarations decls :
  Forall (λ kv, cleanKey kv.1 ∧ cleanValue kv.2) decls →
  filter (λ it, it ≠ None) (toKeyValue <$> (declaration <$> decls)) = Some <$> decls.
Proof.
  induction 1 as [|[k v] l [Hk Hv] _ IH]; [done|].
  rewrite !fmap_cons, (toKeyValue_declaration k v Hk Hv).
  rewrite filter_cons_True by done. by rewrite IH.
Qed.

(** X7.  Writing declarations out and parsing them back: for keys and
    values that are trimmed and free of ":", ";" and "," (keys also free
    of "'", values not empty), with distinct keys other than [__proto__],
    the string "k1:v1;k2:v2;..." parses to the map {k1: v1, k2: v2, ...}. *)
Theorem X7_parse_styleString (decls : list (string * string))
    (Hclean : Forall (λ kv, cleanKey kv.1 ∧ cleanValue kv.2) decls)
    (Hnodup : NoDup decls.*1)
    (Hproto : "__proto__" ∉ decls.*1) :
  _buildStyleMap (Str (styleString decls)) = Obj (list_to_map decls).
Proof.
  destruct (decide (decls = [])) as [->|Hne]; [by_evaluation|].
  cbn [_buildStyleMap]. f_equal.
  rewrite fragments_styleString by done.
  unfold buildFromFragments. rewrite kept_declarations by done.
  rewrite addEntry_fold_list_to_map by done.
  by rewrite (right_id_L ∅ (∪)).
Qed.

Lemma X7_parse_styleString_witness :
  _buildStyleMap (Str (styleString [("color", "red"); ("font-size", "12px")]))
  = Obj (list_to_map [("color", "red"); ("font-size", "12px")]).
Proof.
  apply X7_parse_styleString.
  - repeat constructor; by_evaluation.
  - apply (bool_decide_unpack _). by_evaluation.
  - apply (bool_decide_unpack _). by_evaluation.
Defined.

End MoreParser.

(** * Further properties of the cache *)

Section MoreCache.

Lemma cacheInput_eq key source cacheRaw b :
  cacheInput key source cacheRaw true b
  = {| inputMap :=
         <[key := Obj (ownProps (_buildStyleMap source) ∪ ownProps (inputMapAt "style" b))]>
           (inputMap b);
       mqActivation := mqActivation b |}.
Proof. unfold cacheInput, base_cacheInput. by rewrite extendObject_pair. Qed.

Lemma cacheInput_twice key source cacheRaw b :
  cacheInput key source cacheRaw true (cacheInput key source cacheRaw true b)
  = cacheInput key source cacheRaw true b.
Proof.
  assert (Hb : ownProps (_buildStyleMap source)
                 ∪ ownProps (inputMapAt "style" (cacheInput key source cacheRaw true b))
               = ownProps (_buildStyleMap source) ∪ ownProps (inputMapAt "style" b)).
  { destruct (decide (key = "style")) as [->|Hne].
    - rewrite cacheInput_at. cbn [ownProps].
      by rewrite (assoc_L (∪)), (idemp_L (∪)).
    - by rewrite cacheInput_at_ne. }
  rewrite (cacheInput_eq key source cacheRaw (cacheInput _ _ _ _ _)), Hb.
  rewrite cacheInput_mqActivation, cacheInput_inputMap, insert_insert_eq.
  by rewrite cacheInput_eq.
Qed.

Lemma cacheInput_swap k1 k2 v1 v2 c1 c2 b :
  k1 ≠ k2 → k1 ≠ "style" → k2 ≠ "style" →
  cacheInput k1 v1 c1 true (cacheInput k2 v2 c2 true b)
  = cacheInput k2 v2 c2 true (cacheInput k1 v1 c1 true b).
Proof.
  intros H12 H1 H2.
  rewrite (cacheInput_eq k1 v1 c1 (cacheInput _ _ _ _ _)).
  rewrite (cacheInput_eq k2 v2 c2 (cacheInput _ _ _ _ _)).
  rewrite !cacheInput_mqActivation, !cacheInput_inputMap.
  rewrite !cacheInput_at_ne by done.
  f_equal. by apply insert_insert_ne.
Qed.

(** X8.  Supplying the same input twice in a row, under any key, leaves
    the directive as after the first time. *)
Theorem X8_same_input_twice (key : string) (val : NgStyleType) (d : StyleDirective) :
  setInput key val (setInput key val d) = setInput key val d.
Proof.
  unfold setInput. destruct (decide (key = "style")) as [->|Hne].
  - unfold styleBase. cbn [_base]. by rewrite cacheInput_twice.
  - unfold ngStyleBp. cbn [_base ngStyle]. by rewrite cacheInput_twice.
Qed.

(** X9.  Inputs under two different breakpoint keys can arrive in either
    order: the directive ends up the same. *)
Theorem X9_breakpoint_inputs_commute (k1 k2 : string) (v1 v2 : NgStyleType)
    (d : StyleDirective)
    (H12 : k1 ≠ k2) (H1 : k1 ≠ "style") (H2 : k2 ≠ "style") :
  setInput k1 v1 (setInput k2 v2 d) = setInput k2 v2 (setInput k1 v1 d).
Proof.
  unfold setInput. rewrite !decide_False by done.
  unfold ngStyleBp. cbn [_base ngStyle]. by rewrite cacheInput_swap.
Qed.

Lemma X9_breakpoint_inputs_commute_witness :
  setInput "styleXs" (Str "a:1") (setInput "styleMd" (Str "a:2") (constructor Null))
  = setInput "styleMd" (Str "a:2") (setInput "styleXs" (Str "a:1") (constructor Null)).
Proof. apply X9_breakpoint_inputs_commute; intros [=]. Defined.

(** X10.  After the constructor and any inputs, the cache holds an entry
    for the base key and for each key that received an input, and for no
    other key; every entry is a property map; the directive does not
    listen yet. *)
Theorem X10_cache_holds_maps (inline : NgStyleType) (calls : list (string * NgStyleType)) :
  dom (inputMap (_base (setInputs calls (constructor inline))))
  = {["style"]} ∪ list_to_set calls.*1
  ∧ (∀ k e, inputMap (_base (setInputs calls (constructor inline))) !! k = Some e →
            ∃ m, e = Obj m)
  ∧ mqActivation (_base (setInputs calls (constructor inline))) = None.
Proof.
  induction calls as [|[key val] calls (IHd & IHo & IHa)] using rev_ind.
  - split; [|split; [|done]].
    + unfold setInputs, constructor. cbn [foldl _base].
      rewrite cacheInput_inputMap, dom_insert_L. set_solver.
    + intros k e. unfold setInputs, constructor. cbn [foldl _base].
      rewrite cacheInput_inputMap. intros [[_ <-]|[_ H]]%lookup_insert_Some; [by eexists|].
      unfold _buildAdapter in H. cbn [inputMap] in H. by rewrite lookup_empty in H.
  - rewrite setInputs_snoc, base_setInput. cbn [fst snd].
    split; [|split].
    + rewrite cacheInput_inputMap, dom_insert_L, IHd, fmap_app, list_to_set_app_L.
      cbn [fmap list_fmap fst list_to_set]. rewrite (right_id_L ∅ (∪)).
      rewrite (assoc_L (∪) {["style"]}). apply (comm_L (∪)).
    + intros k e. rewrite cacheInput_inputMap.
      intros [[_ <-]|[_ H]]%lookup_insert_Some; [by eexists | by eapply IHo].
    + by rewrite cacheInput_mqActivation.
Qed.

Lemma X10_cache_holds_maps_witness :
  ∃ m, inputMap (_base (setInputs [("styleXs", Arr ["bold"])] (constructor Null)))
         !! "styleXs" = Some (Obj m).
Proof.
  destruct (X10_cache_holds_maps Null [("styleXs", Arr ["bold"])]) as (_ & H & _).
  destruct (H "styleXs" (Obj {[ "0" := "bold" ]})) as [m Hm]; [by_evaluation|].
  exists m. rewrite <- Hm. by_evaluation.
Defined.

(** A key that the base map and every cache entry hold. *)
Lemma setInputs_keeps_key k calls : ∀ d,
  is_Some (ownProps (inputMapAt "style" (_base d)) !! k) →
  (∀ key e, inputMap (_base d) !! key = Some e → is_Some (ownProps e !! k)) →
  is_Some (ownProps (inputMapAt "style" (_base (setInputs calls d))) !! k)
  ∧ (∀ key e, inputMap (_base (setInputs calls d)) !! key = Some e →
              is_Some (ownProps e !! k)).
Proof.
  induction calls as [|[key val] calls IH] using rev_ind; intros d Hb He; [done|].
  destruct (IH d Hb He) as [IHb IHe].
  rewrite setInputs_snoc, base_setInput. cbn [fst snd].
  set (b := _base (setInputs calls d)) in *.
  assert (Hnew : is_Some ((ownProps (_buildStyleMap val)
                           ∪ ownProps (inputMapAt "style" b)) !! k)).
  { apply lookup_union_is_Some. by right. }
  split.
  - destruct (decide (key = "style")) as [->|Hne].
    + by rewrite cacheInput_at.
    + by rewrite cacheInput_at_ne.
  - intros key' e. rewrite cacheInput_inputMap.
    intros [[_ <-]|[_ H]]%lookup_insert_Some; [done | by eapply IHe].
Qed.

(** X11.  The base map only grows: once it holds a key, it holds that key
    after any further inputs (the value may change). *)
Theorem X11_base_keys_never_removed (calls : list (string * NgStyleType))
    (d : StyleDirective) (k : string)
    (Hk : is_Some (ownProps (inputMapAt "style" (_base d)) !! k)) :
  is_Some (ownProps (inputMapAt "style" (_base (setInputs calls d))) !! k).
Proof.
  induction calls as [|[key val] calls IH] using rev_ind; [done|].
  rewrite setInputs_snoc, base_setInput. cbn [fst snd].
  destruct (decide (key = "style")) as [->|Hne].
  - rewrite cacheInput_at. cbn [ownProps]. apply lookup_union_is_Some. by right.
  - by rewrite cacheInput_at_ne.
Qed.

Lemma X11_base_keys_never_removed_witness :
  is_Some (ownProps (inputMapAt "style"
             (_base (setInputs [("style", Str "margin:0"); ("styleXs", Str "color:blue")]
                       (constructor (Str "color:red"))))) !! "color").
Proof.
  apply (X11_base_keys_never_removed
           [("style", Str "margin:0"); ("styleXs", Str "color:blue")]
           (constructor (Str "color:red")) "color").
  vm_compute. by eexists.
Defined.

(** X12.  The inline style is never lost: every key of the parsed inline
    style attribute is a key of every cache entry, after any inputs. *)
Theorem X12_inline_keys_in_every_entry (inline : NgStyleType)
    (calls : list (string * NgStyleType)) (key : string) (e : NgStyleType) (k : string)
    (He : inputMap (_base (setInputs calls (constructor inline))) !! key = Some e)
    (Hk : is_Some (ownProps (_buildStyleMap inline) !! k)) :
  is_Some (ownProps e !! k).
Proof.
  destruct (setInputs_keeps_key k calls (constructor inline)) as [_ H].
  - by rewrite constructor_base.
  - intros key' e'. unfold constructor. cbn [_base].
    rewrite cacheInput_inputMap.
    intros [[_ <-]|[_ H]]%lookup_insert_Some.
    + cbn [ownProps]. apply lookup_union_is_Some. by left.
    + unfold _buildAdapter in H. cbn [inputMap] in H. by rewrite lookup_empty in H.
  - by eapply H.
Qed.

Lemma X12_inline_keys_in_every_entry_witness :
  is_Some (ownProps (Obj {[ "color" := "blue"; "display" := "none" ]}) !! "display").
Proof.
  apply (X12_inline_keys_in_every_entry (Str "display:none")
           [("style", Str "color:red"); ("styleXs", Str "color:blue")]
           "styleXs" (Obj {[ "color" := "blue"; "display" := "none" ]}) "display").
  - by_evaluation.
  - vm_compute. by eexists.
Defined.

End MoreCache.

(** * Properties of the change-detection hooks *)

Section Lifecycle.

Lemma changed_iff registry changes :
  existsb (λ sfx, bool_decide ("ngStyle" +:+ sfx ∈ changes)
                  || bool_decide ("style" +:+ sfx ∈ changes)) registry = true
  ↔ bpChanged registry changes.
Proof.
  rewrite existsb_exists. unfold bpChanged. split.
  - intros (sfx & Hin & H). exists sfx. split; [by apply list_elem_of_In|].
    apply orb_true_iff in H as [H|H]; apply bool_decide_eq_true in H; eauto.
  - intros (sfx & Hin & H). exists sfx. split; [by apply list_elem_of_In|].
    apply orb_true_iff.
    destruct H as [H|H]; [left | right]; by apply bool_decide_eq_true.
Qed.

Lemma updateStyle_listening value d act :
  mqActivation (_base d) = Some act →
  _updateStyle value d = {| _base := _base d; ngStyle := activatedInput act (_base d) |}.
Proof. intros H. unfold _updateStyle. by rewrite H. Qed.

Lemma ngOnChanges_listening registry changes d act :
  mqActivation (_base d) = Some act →
  ngOnChanges registry changes d
  = {| _base := _base d; ngStyle := activatedInput act (_base d) |}.
Proof.
  intros H. unfold ngOnChanges. rewrite H.
  rewrite (bool_decide_eq_true_2 _ (mk_is_Some _ _ eq_refl)), orb_true_r.
  by apply updateStyle_listening.
Qed.

(** X13.  Before [ngOnInit], breakpoint inputs are cached but not applied:
    when the change-detection hook sees a changed breakpoint input, it
    assigns the cached base map, which is always a property map. *)
Theorem X13_before_init_base_applies (inline : NgStyleType)
    (calls : list (string * NgStyleType)) (registry changes : list string)
    (Hch : bpChanged registry changes) :
  ngStyle (ngOnChanges registry changes (setInputs calls (constructor inline)))
    = inputMapAt "style" (_base (setInputs calls (constructor inline)))
  ∧ ∃ m, inputMapAt "style" (_base (setInputs calls (constructor inline))) = Obj m.
Proof.
  destruct (setInputs_cached calls (constructor inline) "style") as [m Hm].
  { right. rewrite constructor_base. by eexists. }
  split; [|by exists m].
  unfold ngOnChanges. rewrite (proj2 (changed_iff _ _) Hch). cbn [orb].
  unfold _updateStyle. rewrite setInputs_mqActivation. cbn [constructor _base].
  rewrite cacheInput_mqActivation. cbn [_buildAdapter mqActivation ngStyle].
  unfold queryInput. by rewrite Hm.
Qed.

Lemma X13_before_init_base_applies_witness :
  ngStyle (ngOnChanges ["Xs"; "GtMd"] ["ngStyleXs"]
             (setInputs [("styleXs", Str "color:blue")] (constructor (Str "color:red"))))
  = Obj {[ "color" := "red" ]}.
Proof.
  destruct (X13_before_init_base_applies (Str "color:red") [("styleXs", Str "color:blue")]
              ["Xs"; "GtMd"] ["ngStyleXs"]) as [H _].
  - exists "Xs". split; [left | left; left].
  - rewrite H. by_evaluation.
Defined.





Lemma activatedInput_frame act b b' :
  inputMapAt (default (baseKey act) (activatedInputKey act)) b'
  = inputMapAt (default (baseKey act) (activatedInputKey act)) b →
  activatedInput act b' = activatedInput act b.
Proof. intros H. unfold activatedInput, keyInUse. by rewrite H. Qed.

(** X15.  While the directive listens, a new input under the active key is
    applied by the next change-detection pass: the hook assigns the new
    cache entry, the base map overwritten by the parsed input. *)
Theorem X15_recached_active_input_applies (d : StyleDirective)
    (act : ResponsiveActivation) (registry changes : list string) (val : NgStyleType)
    (Hact : mqActivation (_base d) = Some act) :
  ngStyle (ngOnChanges registry changes
             (setInput (default (baseKey act) (activatedInputKey act)) val d))
  = Obj (extendObject ∅ [inputMapAt "style" (_base d); _buildStyleMap val]).
Proof.
  set (key := default (baseKey act) (activatedInputKey act)).
  assert (Hact' : mqActivation (_base (setInput key val d)) = Some act).
  { by rewrite base_setInput, cacheInput_mqActivation. }
  rewrite (ngOnChanges_listening _ _ _ _ Hact'). cbn [ngStyle].
  rewrite base_setInput. unfold activatedInput, keyInUse. fold key.
  rewrite cacheInput_at, extendObject_pair.
  by rewrite bool_decide_eq_true_2.
Qed.

Lemma X15_recached_active_input_applies_witness :
  ngStyle (ngOnChanges ["Xs"] ["ngStyleXs"]
             (setInput "styleXs" (Str "color:blue")
                (onMediaQueryChange [Xs true]
                   (ngOnInit (ngStyleXs (Str "color:red") (constructor Null))))))
  = Obj {[ "color" := "blue" ]}.
Proof.
  etrans.
  - apply (X15_recached_active_input_applies
             (onMediaQueryChange [Xs true]
                (ngOnInit (ngStyleXs (Str "color:red") (constructor Null))))
             {| baseKey := "style"; defaultValue := Str EmptyString;
                activatedInputKey := Some "styleXs" |}
             ["Xs"] ["ngStyleXs"] (Str "color:blue")).
    by_evaluation.
  - by_evaluation.
Defined.

(** X16.  While the directive listens, an input under a key other than the
    active one does not change what the next change-detection pass
    applies.  In particular a new base input, while a breakpoint is
    active, shows in [ngStyle] right after the setter and is replaced by
    the unchanged breakpoint entry at the next pass. *)
Theorem X16_other_input_keeps_active_style (d : StyleDirective)
    (act : ResponsiveActivation) (registry changes : list string)
    (key : string) (val : NgStyleType)
    (Hact : mqActivation (_base d) = Some act)
    (Hkey : key ≠ default (baseKey act) (activatedInputKey act)) :
  ngStyle (ngOnChanges registry changes (setInput key val d))
    = activatedInput act (_base d)
  ∧ (key = "style" →
     ngStyle (setInput key val d)
     = Obj (extendObject ∅ [inputMapAt "style" (_base d); _buildStyleMap val])).
Proof.
  split.
  - assert (Hact' : mqActivation (_base (setInput key val d)) = Some act).
    { by rewrite base_setInput, cacheInput_mqActivation. }
    rewrite (ngOnChanges_listening _ _ _ _ Hact'). cbn [ngStyle].
    apply activatedInput_frame. rewrite base_setInput.
    by apply cacheInput_at_ne.
  - intros ->. unfold setInput. rewrite decide_True by done.
    unfold styleBase. cbn [ngStyle]. by rewrite cacheInput_at, extendObject_pair.
Qed.

Lemma X16_other_input_keeps_active_style_witness :
  ngStyle (ngOnChanges ["Xs"] ["ngStyle"]
             (setInput "style" (Str "margin:0")
                (onMediaQueryChange [Xs true]
                   (ngOnInit (ngStyleXs (Str "color:red") (constructor Null))))))
  = Obj {[ "color" := "red" ]}.
Proof.
  destruct (X16_other_input_keeps_active_style
             (onMediaQueryChange [Xs true]
                (ngOnInit (ngStyleXs (Str "color:red") (constructor Null))))
             {| baseKey := "style"; defaultValue := Str EmptyString;
                activatedInputKey := Some "styleXs" |}
             ["Xs"] ["ngStyle"] "style" (Str "margin:0")) as [H _].
  - by_evaluation.
  - intros [=].
  - rewrite H. by_evaluation.
Defined.

End Lifecycle.
